(** * orbox: vectors, positions and clamped movement

    A shallow embedding of [src/orbox/orbox.ts].

    Numbers.  Every number the program builds is an integer: [units] is
    20, the start positions are multiples of [units], and the DOM gives
    [canvas.width] and [canvas.height] as integers.  On integers up to
    [2^53] the arithmetic of JavaScript numbers is exact, so a [number] is
    a [Z] here.  Comparisons, and hence the clamp, behave the same on every
    finite number; what depends on exact sums carries a bound, and a
    transcription on binary64 numbers shows what happens outside it.

    Objects.  A method that mutates [this] is a function from the receiver
    before the call to the receiver after it.  The objects of the game live
    in the array [gameObjects]; the variables [background] and [player]
    are references into it, modelled as indices. *)

From Stdlib Require Import ZArith Lia.
From Stdlib Require Import Floats.PrimFloat.
From stdpp Require Import base list strings.

Local Open Scope Z_scope.

(** ** Vector *)

(** [class Vector implements Point]: the two fields [x] and [y]. *)
Record Vector : Type := mkVector { x : Z; y : Z }.

(** [static new (x, y)]: alias of the constructor. *)
Definition Vector_new (x0 y0 : Z) : Vector := mkVector x0 y0.

(** [static get origin ()]: a fresh [(0, 0)] at every use. *)
Definition Vector_origin : Vector := mkVector 0 0.

(** One round of the [forEach] body of [Vector.add]:
    [resultantVector.x += vector.x; resultantVector.y += vector.y]. *)
Definition add_step (resultantVector vector : Vector) : Vector :=
  {| x := x resultantVector + x vector; y := y resultantVector + y vector |}.

(** [static add(...vectors)]: starts from [Vector.origin] and runs the
    [forEach] over the arguments from left to right. *)
Definition Vector_add (vectors : list Vector) : Vector :=
  fold_left add_step vectors Vector_origin.

(** [plus(...vectors)]: the receiver after the call.  The sum is taken over
    a copy of the receiver followed by the arguments, and its two
    components are stored back. *)
Definition Vector_plus (vectors : list Vector) (this : Vector) : Vector :=
  let resultantVector := Vector_add (mkVector (x this) (y this) :: vectors) in
  {| x := x resultantVector; y := y resultantVector |}.

(** ** Position *)

(** [class Position extends Vector]: no field of its own. *)
Definition Position : Type := Vector.

(** [move(vector)]: [this.plus(vector)]. *)
Definition Position_move (vector : Vector) (this : Position) : Position :=
  Vector_plus [vector] this.

(** What [console.log] printed, oldest line first. *)
Definition Console : Type := list Z.

(** [moveX(x)]: logs [this.x], moves, logs [this.x] again.  The result is
    the receiver after the call and the two lines printed. *)
Definition Position_moveX (x0 : Z) (this : Position) : Position * Console :=
  let this' := Position_move (mkVector x0 0) this in
  (this', [x this; x this']).

(** [moveY(y)]: moves, prints nothing. *)
Definition Position_moveY (y0 : Z) (this : Position) : Position :=
  Position_move (mkVector 0 y0) this.

Definition Position_moveLeft (units : Z) (this : Position) : Position * Console :=
  Position_moveX (- units) this.

Definition Position_moveUp (units : Z) (this : Position) : Position :=
  Position_moveY (- units) this.

Definition Position_moveDown (units : Z) (this : Position) : Position :=
  Position_moveY units this.

Definition Position_moveRight (units : Z) (this : Position) : Position * Console :=
  Position_moveX units this.

(** ** Canvas, constants and drawing *)

(** The two properties of the [HTMLCanvasElement] the program reads.  The
    element comes from the page, so its size is not fixed by the source. *)
Record Canvas : Type := mkCanvas { canvas_width : Z; canvas_height : Z }.

Definition backgroundColor : string := "#7777ff".
Definition playerColor1 : string := "blue".
Definition playerColor2 : string := "yellow".

(** [const units = 20]: game units to pixels. *)
Definition units : Z := 20.

(** What reaches the 2D context: [clearRect] of [render], and one entry per
    call of [drawRect]. *)
Inductive DrawCmd : Type :=
| ClearRect (x0 y0 w h : Z)
| DrawRect (stroke fill : string) (px py width height : Z).

Definition drawRect (stroke fill : string) (pos : Position) (width height : Z)
  : DrawCmd :=
  DrawRect stroke fill (x pos) (y pos) width height.

(** ** GameObject and Rectangle *)

(** The functions the program stores in an object's own [move] property.
    There is one: the arrow function assigned to [player.move]. *)
Inductive OwnMove : Type := PlayerMoveArrow.

(** [class GameObject]: [pos], [renderFunction], and the own property
    [move] when one was assigned ([None]: the method of the prototype). *)
Record GameObject : Type := mkGameObject {
  pos : Position;
  renderFunction : Position -> DrawCmd;
  own_move : option OwnMove
}.

Definition set_pos (p : Position) (o : GameObject) : GameObject :=
  {| pos := p; renderFunction := renderFunction o; own_move := own_move o |}.

(** [render()]: [this.renderFunction(this.pos)]. *)
Definition GameObject_render (this : GameObject) : DrawCmd :=
  renderFunction this (pos this).

(** The first [if]/[else if] of [GameObject.move], on [this.pos.x]. *)
Definition clamp_x (canvas : Canvas) (p : Position) : Position :=
  if x p <? 0 then {| x := 0; y := y p |}
  else if x p >? canvas_width canvas - units
       then {| x := canvas_width canvas - units; y := y p |}
       else p.

(** The second [if]/[else if] of [GameObject.move], on [this.pos.y]. *)
Definition clamp_y (canvas : Canvas) (p : Position) : Position :=
  if y p <? 0 then {| x := x p; y := 0 |}
  else if y p >? canvas_height canvas - units
       then {| x := x p; y := canvas_height canvas - units |}
       else p.

(** [GameObject.prototype.move(vector)]: the receiver after the call.
    [canvas] and [units] are the globals the method reads. *)
Definition GameObject_move (canvas : Canvas) (vector : Vector)
    (this : GameObject) : GameObject :=
  set_pos (clamp_y canvas (clamp_x canvas (Position_move vector (pos this)))) this.

(** [class Rectangle extends GameObject]: the fields of the superclass and
    [width], [height]. *)
Record Rectangle : Type := mkRectangle {
  super : GameObject;
  width : Z;
  height : Z
}.

(** [new Rectangle(pos, width, height, context, stroke, fill)]. *)
Definition Rectangle_new (pos0 : Position) (width0 height0 : Z)
    (stroke fill : string) : Rectangle :=
  {| super := {| pos := pos0;
                 renderFunction := fun p => drawRect stroke fill p width0 height0;
                 own_move := None |};
     width := width0;
     height := height0 |}.

Definition set_super (o : GameObject) (r : Rectangle) : Rectangle :=
  {| super := o; width := width r; height := height r |}.

(** [move] is inherited: on a rectangle it is the method of [GameObject]. *)
Definition Rectangle_move (canvas : Canvas) (vector : Vector)
    (this : Rectangle) : Rectangle :=
  set_super (GameObject_move canvas vector (super this)) this.

(** [n] calls of [move] with the same vector, on an object that has no
    [move] of its own. *)
Definition move_times (n : nat) (canvas : Canvas) (vector : Vector)
    (this : Rectangle) : Rectangle :=
  Nat.iter n (Rectangle_move canvas vector) this.

(** Moving a rectangle left, then right, by [m]: two calls of [move] with
    the vectors [Position.moveLeft] and [Position.moveRight] build. *)
Definition left_then_right (canvas : Canvas) (m : Z) (this : Rectangle)
  : Rectangle :=
  Rectangle_move canvas (mkVector m 0)
    (Rectangle_move canvas (mkVector (- m) 0) this).

(** The spec's clamp invariant, with the entity's own size. *)
Definition inside_world (canvas : Canvas) (r : Rectangle) : Prop :=
  0 <= x (pos (super r)) <= canvas_width canvas - width r /\
  0 <= y (pos (super r)) <= canvas_height canvas - height r.

(** Strictly inside the boundary, with the entity's own size. *)
Definition strictly_inside_world (canvas : Canvas) (r : Rectangle) : Prop :=
  0 < x (pos (super r)) < canvas_width canvas - width r /\
  0 < y (pos (super r)) < canvas_height canvas - height r.

(** The range [GameObject.move] clamps to. *)
Definition inside_units (canvas : Canvas) (o : GameObject) : Prop :=
  0 <= x (pos o) <= canvas_width canvas - units /\
  0 <= y (pos o) <= canvas_height canvas - units.

(** ** The module state *)

(** The value of [this] at the top level of the file, which the arrow
    function assigned to [player.move] captures: [undefined] when the file
    is loaded as a module, the global object when it is loaded as a script.
    Of the global object only its property [pos] is read; the program
    defines no global of that name, so there it is [None]. *)
Inductive ThisValue : Type :=
| ThisUndefined
| ThisObject (this_pos : option Position).

(** The mutable state of the module: the canvas, the array [gameObjects]
    and the captured top-level [this]. *)
Record World : Type := mkWorld {
  this_top : ThisValue;
  canvas : Canvas;
  gameObjects : list Rectangle
}.

Definition set_gameObjects (l : list Rectangle) (w : World) : World :=
  {| this_top := this_top w; canvas := canvas w; gameObjects := l |}.

(** The variables [background] and [player]: references to the first and
    second object pushed on [gameObjects]. *)
Definition background : nat := 0%nat.
Definition player : nat := 1%nat.

(** The position of the object a reference points to. *)
Definition pos_of (ref : nat) (w : World) : option Position :=
  (fun r => pos (super r)) <$> gameObjects w !! ref.

(** ** Exceptions *)

Inductive Exn : Type :=
| TypeError (message : string).

(** How a call ends: with a value, or with a thrown exception. *)
Inductive Completion (A : Type) : Type :=
| Normal (a : A)
| Throw (e : Exn).
Arguments Normal {A} a.
Arguments Throw {A} e.

(** Code that reads and writes the module state and may throw.  The state
    at the point of a throw is kept: an exception does not undo writes. *)
Definition Js (A : Type) : Type := World -> Completion A * World.

Definition ret {A} (a : A) : Js A := fun w => (Normal a, w).

Definition throw {A} (e : Exn) : Js A := fun w => (Throw e, w).

Definition bind {A B} (m : Js A) (k : A -> Js B) : Js B := fun w =>
  match m w with
  | (Normal a, w') => k a w'
  | (Throw e, w') => (Throw e, w')
  end.

Definition get_world : Js World := fun w => (Normal w, w).

Definition put_world (w' : World) : Js unit := fun _ => (Normal tt, w').

Declare Scope js_scope.
Delimit Scope js_scope with js.
Notation "v <- m ;; k" := (bind m (fun v => k))
  (at level 100, m at next level, right associativity) : js_scope.
Local Open Scope js_scope.

(** ** Startup *)

(** The top-level statements from [let gameObjects = []] up to and
    including [player.move = ...], for the canvas [c] found in the page.
    None of them can throw, and none inspects the size of the canvas. *)
Definition startup (this : ThisValue) (c : Canvas) : World :=
  let gameObjects0 : list Rectangle := [] in
  let background0 :=
    Rectangle_new (mkVector 0 0) (canvas_width c) (canvas_height c)
      backgroundColor backgroundColor in
  let gameObjects1 := gameObjects0 ++ [background0] in
  let player0 :=
    Rectangle_new (mkVector (5 * units) (6 * units)) units units
      playerColor1 backgroundColor in
  let gameObjects2 := gameObjects1 ++ [player0] in
  let gameObjects3 := gameObjects2 ++
    [Rectangle_new (mkVector (8 * units) (6 * units)) units units "black" "black"] in
  let gameObjects4 := gameObjects3 ++
    [Rectangle_new (mkVector (0 * units) (6 * units)) units units "black" "black"] in
  let gameObjects5 := gameObjects4 ++
    [Rectangle_new (mkVector (1 * units) (2 * units)) units units "black" "black"] in
  let gameObjects6 := gameObjects5 ++
    [Rectangle_new (mkVector (5 * units) (5 * units)) units units "black" "black"] in
  (* player.move = (vector) => { ... } *)
  let set_move (r : Rectangle) :=
    set_super {| pos := pos (super r);
                 renderFunction := renderFunction (super r);
                 own_move := Some PlayerMoveArrow |} r in
  {| this_top := this;
     canvas := c;
     gameObjects := alter set_move player gameObjects6 |}.

(** The whole of the top level.  [canvas0] is what
    [document.querySelector('#canvas')] returned; when it is [null] the
    call [canvas.getContext('2d')] throws, the only way for the startup to
    end with an error. *)
Definition init (this : ThisValue) (canvas0 : option Canvas) : Completion World :=
  match canvas0 with
  | None => Throw (TypeError "canvas is null")
  | Some c => Normal (startup this c)
  end.

(** [render(objects)]: clears the canvas and renders every object. *)
Definition render (w : World) : list DrawCmd :=
  ClearRect 0 0 (canvas_width (canvas w)) (canvas_height (canvas w))
  :: map (fun r => GameObject_render (super r)) (gameObjects w).

(** ** Movement on key events *)

(** [this.pos.x] for the captured [this]: a [TypeError] when [this] is
    [undefined], and when [this.pos] is. *)
Definition this_pos_x (t : ThisValue) : Js Z :=
  match t with
  | ThisUndefined => throw (TypeError "this is undefined")
  | ThisObject None => throw (TypeError "this.pos is undefined")
  | ThisObject (Some p) => ret (x p)
  end.

(** The arrow function assigned to [player.move]:
    [if (this.pos.x > 0 && vector.x < 0) { }]. *)
Definition player_move_arrow (vector : Vector) : Js unit :=
  w <- get_world ;;
  px <- this_pos_x (this_top w) ;;
  if (px >? 0) && (x vector <? 0) then ret tt else ret tt.

(** The call [o.move(vector)] for a reference [o]: an own property [move]
    shadows the method of the prototype; the prototype's method mutates
    the object in place. *)
Definition call_move (o : nat) (vector : Vector) : Js unit :=
  w <- get_world ;;
  match gameObjects w !! o with
  | None => throw (TypeError "undefined has no move")
  | Some r =>
      match own_move (super r) with
      | Some PlayerMoveArrow => player_move_arrow vector
      | None =>
          put_world
            (set_gameObjects
               (<[o := Rectangle_move (canvas w) vector r]> (gameObjects w)) w)
      end
  end.

(** [enum ArrowKey]. *)
Definition ArrowKey_Left : string := "ArrowLeft".
Definition ArrowKey_Down : string := "ArrowDown".
Definition ArrowKey_Up : string := "ArrowUp".
Definition ArrowKey_Right : string := "ArrowRight".

(** The [keydown] listener: a [switch] on [event.key], the cases tried in
    the order of the source, no [default]. *)
Definition keydown (key : string) : Js unit :=
  if String.eqb key ArrowKey_Left then call_move player (Vector_new (- units) 0)
  else if String.eqb key ArrowKey_Up then call_move player (Vector_new 0 (- units))
  else if String.eqb key ArrowKey_Down then call_move player (Vector_new 0 units)
  else if String.eqb key ArrowKey_Right then call_move player (Vector_new units 0)
  else ret tt.

(** The event loop delivers the keys in order; an exception that escapes
    the listener is reported and the next event is delivered in the state
    the listener left. *)
Definition dispatch (keys : list string) (w : World) : World :=
  fold_left (fun w' key => snd (keydown key w')) keys w.

(** The state after [player.move = ...]: the player object has the arrow
    function as its own [move]. *)
Definition player_move_reassigned (w : World) : Prop :=
  exists r, gameObjects w !! player = Some r /\
            own_move (super r) = Some PlayerMoveArrow.

(** The canvas and the player of the spec's examples. *)
Definition canvas_400 : Canvas := mkCanvas 400 400.

Definition box_at (x0 y0 : Z) : Rectangle :=
  Rectangle_new (mkVector x0 y0) units units playerColor1 backgroundColor.

(** ** The calls on the 2D context *)

(** The methods and properties of [CanvasRenderingContext2D] the program
    uses, as the calls and assignments it makes on it. *)
Inductive ContextCall : Type :=
| CallClearRect (x0 y0 w h : Z)
| CallBeginPath
| SetStrokeStyle (style : string)
| SetFillStyle (style : string)
| SetLineWidth (w : Z)
| CallRect (x0 y0 w h : Z)
| CallStrokeRect (x0 y0 w h : Z)
| CallFill
| CallStroke
| CallMoveTo (x0 y0 : Z)
| CallLineTo (x0 y0 : Z).

(** The body of [drawRect], statement by statement. *)
Definition drawRect_calls (stroke fill : string) (pos : Vector)
    (width height : Z) : list ContextCall :=
  [ CallBeginPath;
    SetStrokeStyle stroke;
    SetFillStyle fill;
    CallRect (x pos) (y pos) width height;
    CallStrokeRect (x pos) (y pos) width height;
    CallFill;
    CallStroke ].

(** [drawLine(context, stroke, start, end, width = -1)]: [width] is [None]
    when the argument is left out, and then takes the default. *)
Definition drawLine (stroke : string) (start end_ : Vector)
    (width : option Z) : list ContextCall :=
  let width := match width with Some w => w | None => -1 end in
  [SetStrokeStyle stroke]
  ++ (if width >? 0 then [SetLineWidth width] else [])
  ++ [ CallBeginPath;
       CallMoveTo (x start) (y start);
       CallLineTo (x end_) (y end_);
       CallStroke ].

(** What a drawing command does on the context. *)
Definition context_calls (cmd : DrawCmd) : list ContextCall :=
  match cmd with
  | ClearRect x0 y0 w h => [CallClearRect x0 y0 w h]
  | DrawRect stroke fill px py w h =>
      drawRect_calls stroke fill (mkVector px py) w h
  end.

(** One tick of [setInterval(render, fps, gameObjects)]: all the calls of
    a frame, in order. *)
Definition frame_calls (w : World) : list ContextCall :=
  concat (map context_calls (render w)).

(** ** Runs *)

(** What can happen to the module state after the startup: a key event,
    or a call [gameObjects[o].move(vector)] by other code. *)
Inductive Action : Type :=
| Key (key : string)
| Move (o : nat) (vector : Vector).

Definition act (w : World) (a : Action) : World :=
  match a with
  | Key key => snd (keydown key w)
  | Move o vector => snd (call_move o vector w)
  end.

Definition run (actions : list Action) (w : World) : World :=
  fold_left act actions w.

(** The sum of a list of numbers, as [Vector.add] forms it per component. *)
Definition sumZ (l : list Z) : Z := fold_left Z.add l 0.

(** Every object in the array is in the range [move] clamps to. *)
Definition all_inside_units (w : World) : Prop :=
  Forall (fun r => inside_units (canvas w) (super r)) (gameObjects w).

(** The module state with the six objects of the startup at given
    positions: the background at [p0], the player (with its reassigned
    [move]) at its start position, the four obstacles at [p2] to [p5]. *)
Definition world_at (this : ThisValue) (c : Canvas)
    (p0 p2 p3 p4 p5 : Position) : World :=
  {| this_top := this;
     canvas := c;
     gameObjects :=
       [ Rectangle_new p0 (canvas_width c) (canvas_height c)
           backgroundColor backgroundColor;
         {| super := {| pos := mkVector (5 * units) (6 * units);
                        renderFunction := fun p =>
                          drawRect playerColor1 backgroundColor p units units;
                        own_move := Some PlayerMoveArrow |};
            width := units;
            height := units |};
         Rectangle_new p2 units units "black" "black";
         Rectangle_new p3 units units "black" "black";
         Rectangle_new p4 units units "black" "black";
         Rectangle_new p5 units units "black" "black" ] |}.

(** The states of the shape [world_at] whose five free positions all
    satisfy [P]. *)
Definition shaped (P : Position -> Prop) (this : ThisValue) (c : Canvas)
    (w : World) : Prop :=
  exists p0 p2 p3 p4 p5,
    w = world_at this c p0 p2 p3 p4 p5 /\ P p0 /\ P p2 /\ P p3 /\ P p4 /\ P p5.

(** ** Numbers that are not small integers *)

(** Integers up to [2^53] in absolute value are binary64 numbers, and a sum
    or difference of two of them that stays in this range is computed
    without rounding.  Properties that rest on regrouping or cancelling
    additions are stated for values within this bound. *)
Definition exact_bound : Z := 2 ^ 53.

(** The same methods on binary64 numbers, for runs on values the integer
    model does not contain: [+=] is the addition of doubles, [<] and [>]
    their comparisons. *)
Record Vector64 : Type := mkVector64 { x64 : float; y64 : float }.

Definition add_step64 (resultantVector vector : Vector64) : Vector64 :=
  {| x64 := x64 resultantVector + x64 vector;
     y64 := y64 resultantVector + y64 vector |}%float.

(** [Vector.add]. *)
Definition Vector_add64 (vectors : list Vector64) : Vector64 :=
  fold_left add_step64 vectors (mkVector64 0 0).

(** [Vector.plus]. *)
Definition Vector_plus64 (vectors : list Vector64) (this : Vector64) : Vector64 :=
  let resultantVector := Vector_add64 (mkVector64 (x64 this) (y64 this) :: vectors) in
  {| x64 := x64 resultantVector; y64 := y64 resultantVector |}.

(** [Position.move]. *)
Definition Position_move64 (vector this : Vector64) : Vector64 :=
  Vector_plus64 [vector] this.

(** [GameObject.move], on the position, in a canvas [w] wide and [h]
    high, with [units] = 20. *)
Definition GameObject_move64 (w h : float) (vector this : Vector64) : Vector64 :=
  let p := Position_move64 vector this in
  let p :=
    if PrimFloat.ltb (x64 p) 0 then {| x64 := 0; y64 := y64 p |}
    else if PrimFloat.ltb (w - 20) (x64 p)
         then {| x64 := (w - 20)%float; y64 := y64 p |}
         else p in
  if PrimFloat.ltb (y64 p) 0 then {| x64 := x64 p; y64 := 0 |}
  else if PrimFloat.ltb (h - 20) (y64 p)
       then {| x64 := x64 p; y64 := (h - 20)%float |}
       else p.

(** Left by [m], then right by [m], as in [left_then_right]. *)
Definition left_then_right64 (w h m : float) (this : Vector64) : Vector64 :=
  GameObject_move64 w h (mkVector64 m 0)
    (GameObject_move64 w h (mkVector64 (- m) 0) this).

(** * Properties *)

(** ** Vector arithmetic *)

Lemma add_step_origin (v : Vector) : add_step Vector_origin v = v.
Proof. destruct v as [vx vy]. reflexivity. Qed.

Lemma Vector_add_cons (v : Vector) (vs : list Vector) :
  Vector_add (v :: vs) = fold_left add_step vs v.
Proof. unfold Vector_add. simpl. now rewrite add_step_origin. Qed.

(** [plus] in closed form: the receiver, with the arguments added from left
    to right. *)
Lemma Vector_plus_fold (vs : list Vector) (p : Vector) :
  Vector_plus vs p = fold_left add_step vs p.
Proof.
  unfold Vector_plus. rewrite Vector_add_cons.
  destruct p as [px py]. simpl.
  now destruct (fold_left add_step vs _).
Qed.

Lemma Vector_plus_app (vs ws : list Vector) (p : Vector) :
  Vector_plus (vs ++ ws) p = Vector_plus ws (Vector_plus vs p).
Proof. rewrite !Vector_plus_fold. apply fold_left_app. Qed.

Lemma Position_move_eq (d : Vector) (p : Position) :
  Position_move d p = {| x := x p + x d; y := y p + y d |}.
Proof. unfold Position_move. now rewrite Vector_plus_fold. Qed.

(** C5: [Vector.add()] is [(0, 0)], and [Vector.add(v)] has the components
    of [v]. *)
Theorem Vector_add_nil_and_single :
  Vector_add [] = mkVector 0 0 /\
  forall v : Vector,
    x (Vector_add [v]) = x v /\ y (Vector_add [v]) = y v /\ Vector_add [v] = v.
Proof.
  split; [reflexivity |].
  intros v. rewrite Vector_add_cons. simpl. auto.
Qed.

(** C6: [p.plus(a); p.plus(b)] leaves in [p] the value [p.plus(a, b)]
    leaves. *)
Theorem plus_twice_is_plus_both (p a b : Vector) :
  Vector_plus [b] (Vector_plus [a] p) = Vector_plus [a; b] p.
Proof. symmetry. apply (Vector_plus_app [a] [b]). Qed.

(** ** Directional helpers *)

(** C7: each directional helper leaves the receiver where [move] with the
    axis vector leaves it, for every magnitude, negative ones included;
    [moveRight(-m)] is [moveLeft(m)] and [moveDown(-m)] is [moveUp(m)],
    printed lines included. *)
Theorem directional_helpers_are_move (u : Z) (p : Position) :
  fst (Position_moveLeft u p) = Position_move (mkVector (- u) 0) p /\
  fst (Position_moveRight u p) = Position_move (mkVector u 0) p /\
  Position_moveUp u p = Position_move (mkVector 0 (- u)) p /\
  Position_moveDown u p = Position_move (mkVector 0 u) p /\
  Position_moveRight (- u) p = Position_moveLeft u p /\
  Position_moveDown (- u) p = Position_moveUp u p /\
  Position_moveLeft (- u) p = Position_moveRight u p /\
  Position_moveUp (- u) p = Position_moveDown u p.
Proof.
  unfold Position_moveLeft, Position_moveRight, Position_moveUp,
    Position_moveDown, Position_moveX, Position_moveY.
  rewrite Z.opp_involutive. simpl. repeat split; reflexivity.
Qed.

(** A negative magnitude moves the other way: the coordinates. *)
Lemma moveRight_negative (m : Z) (p : Position) :
  fst (Position_moveRight (- m) p) = {| x := x p - m; y := y p |}.
Proof.
  unfold Position_moveRight, Position_moveX. simpl.
  rewrite Position_move_eq. simpl. f_equal; lia.
Qed.

(** ** The clamp of [GameObject.move] *)

Section Clamp.
Variable c : Canvas.

Lemma clamp_x_y (p : Position) : y (clamp_x c p) = y p.
Proof.
  unfold clamp_x. destruct (x p <? 0); [reflexivity |].
  now destruct (x p >? canvas_width c - units).
Qed.

Lemma clamp_y_x (p : Position) : x (clamp_y c p) = x p.
Proof.
  unfold clamp_y. destruct (y p <? 0); [reflexivity |].
  now destruct (y p >? canvas_height c - units).
Qed.

(** The three outcomes of the clamp on [x]. *)
Lemma clamp_x_cases (p : Position) :
  (x p < 0 /\ x (clamp_x c p) = 0) \/
  (0 <= x p /\ canvas_width c - units < x p /\
   x (clamp_x c p) = canvas_width c - units) \/
  (0 <= x p <= canvas_width c - units /\ clamp_x c p = p).
Proof.
  unfold clamp_x. rewrite Z.gtb_ltb.
  destruct (Z.ltb_spec (x p) 0) as [Hlo | Hlo]; [left; auto |].
  destruct (Z.ltb_spec (canvas_width c - units) (x p)) as [Hhi | Hhi].
  - right; left. auto.
  - right; right. split; [lia | reflexivity].
Qed.

Lemma clamp_y_cases (p : Position) :
  (y p < 0 /\ y (clamp_y c p) = 0) \/
  (0 <= y p /\ canvas_height c - units < y p /\
   y (clamp_y c p) = canvas_height c - units) \/
  (0 <= y p <= canvas_height c - units /\ clamp_y c p = p).
Proof.
  unfold clamp_y. rewrite Z.gtb_ltb.
  destruct (Z.ltb_spec (y p) 0) as [Hlo | Hlo]; [left; auto |].
  destruct (Z.ltb_spec (canvas_height c - units) (y p)) as [Hhi | Hhi].
  - right; left. auto.
  - right; right. split; [lia | reflexivity].
Qed.

(** The coordinates after [move], as the clamp of the sum. *)
Lemma GameObject_move_x (d : Vector) (o : GameObject) :
  x (pos (GameObject_move c d o)) =
  x (clamp_x c {| x := x (pos o) + x d; y := y (pos o) + y d |}).
Proof.
  unfold GameObject_move. simpl. now rewrite clamp_y_x, Position_move_eq.
Qed.

Lemma GameObject_move_y (d : Vector) (o : GameObject) :
  y (pos (GameObject_move c d o)) =
  y (clamp_y c {| x := x (pos o) + x d; y := y (pos o) + y d |}).
Proof.
  unfold GameObject_move. simpl. rewrite Position_move_eq.
  unfold clamp_y. rewrite !clamp_x_y. simpl.
  destruct (_ <? 0); [reflexivity |].
  destruct (_ >? _); [reflexivity | apply clamp_x_y].
Qed.

(** A move that stays in the clamp range is the plain sum. *)
Lemma GameObject_move_unclamped (d : Vector) (o : GameObject) :
  0 <= x (pos o) + x d <= canvas_width c - units ->
  0 <= y (pos o) + y d <= canvas_height c - units ->
  pos (GameObject_move c d o) = {| x := x (pos o) + x d; y := y (pos o) + y d |}.
Proof.
  intros Hx Hy. unfold GameObject_move. simpl. rewrite Position_move_eq.
  set (q := {| x := _; y := _ |}).
  destruct (clamp_x_cases q) as [[L _] | [(_ & L & _) | [_ E]]];
    [simpl in L; lia | simpl in L; lia |].
  rewrite E.
  destruct (clamp_y_cases q) as [[L _] | [(_ & L & _) | [_ F]]];
    [simpl in L; lia | simpl in L; lia |].
  exact F.
Qed.

(** In a canvas at least [units] wide and high, [move] ends in the
    clamp range. *)
Lemma GameObject_move_inside_units (d : Vector) (o : GameObject) :
  units <= canvas_width c -> units <= canvas_height c ->
  inside_units c (GameObject_move c d o).
Proof.
  intros Hw Hh. unfold inside_units.
  rewrite GameObject_move_x, GameObject_move_y.
  set (q := {| x := _; y := _ |}).
  destruct (clamp_x_cases q) as [[_ E] | [(_ & _ & E) | [R E]]];
    destruct (clamp_y_cases q) as [[_ F] | [(_ & _ & F) | [S F]]];
    rewrite E, F; lia.
Qed.

(** In a canvas narrower than [units] the ceiling of the clamp is
    negative, and every move that does not end left of 0 lands on it. *)
Lemma GameObject_move_negative_ceiling (d : Vector) (o : GameObject) :
  canvas_width c < units -> 0 <= x (pos o) + x d ->
  x (pos (GameObject_move c d o)) = canvas_width c - units.
Proof.
  intros Hw Hx. rewrite GameObject_move_x.
  set (q := {| x := _; y := _ |}).
  destruct (clamp_x_cases q) as [[L _] | [(_ & _ & E) | [R _]]];
    simpl in *; [lia | exact E | lia].
Qed.
End Clamp.

(** ** The clamp invariant *)

(** C1, as the spec states it, fails: the background rectangle is as wide
    as the canvas, so its own range for [x] is [0..0], and [move] by
    [(20, 0)] puts it at [x = 20]. *)
Lemma background_leaves_own_range :
  let r := Rectangle_new (mkVector 0 0) 400 400 backgroundColor backgroundColor in
  inside_world canvas_400 r /\
  ~ inside_world canvas_400 (Rectangle_move canvas_400 (mkVector 20 0) r).
Proof.
  split.
  - unfold inside_world. simpl. lia.
  - unfold inside_world. vm_compute. intros [[_ H] _]. apply H. reflexivity.
Qed.

(** It fails as well in a canvas narrower than [units], whatever the size
    of the entity: the ceiling of the clamp is below 0 there. *)
Lemma narrow_canvas_leaves_own_range :
  let c := mkCanvas 10 10 in
  let r := Rectangle_new (mkVector 0 0) 5 5 "black" "black" in
  inside_world c r /\
  ~ inside_world c (Rectangle_move c (mkVector 0 0) r).
Proof.
  split.
  - unfold inside_world. simpl. lia.
  - unfold inside_world. vm_compute. intros [[H _] _]. apply H. reflexivity.
Qed.

(** C1, amended: for an entity whose width and height are at most [units],
    in a canvas at least [units] wide and high, the position after [move]
    is inside the world by the entity's own size, for every finite
    displacement. *)
Theorem move_keeps_small_box_inside_world
    (c : Canvas) (d : Vector) (r : Rectangle) :
  width r <= units -> height r <= units ->
  units <= canvas_width c -> units <= canvas_height c ->
  inside_world c (Rectangle_move c d r).
Proof.
  intros Hw Hh Hcw Hch.
  pose proof (GameObject_move_inside_units c d (super r) Hcw Hch) as [Hx Hy].
  unfold inside_world. unfold Rectangle_move, set_super. cbn [super width height].
  lia.
Qed.

Lemma move_keeps_small_box_inside_world_witness :
  inside_world canvas_400
    (Rectangle_move canvas_400 (mkVector 1000 (-1000))
       (Rectangle_new (mkVector 100 385) 10 10 "black" "black")).
Proof.
  apply move_keeps_small_box_inside_world;
    [vm_compute; discriminate | vm_compute; discriminate
    | vm_compute; discriminate | vm_compute; discriminate].
Defined.

(** C10, as stated for every canvas, fails in a canvas narrower than
    [units]: the ceiling of the clamp is negative there. *)
Lemma narrow_canvas_breaks_units_range :
  let c := mkCanvas 10 10 in
  let o := super (box_at 0 0) in
  x (pos (GameObject_move c (mkVector 0 0) o)) = -10 /\
  ~ inside_units c (GameObject_move c (mkVector 0 0) o).
Proof.
  split; [reflexivity |].
  unfold inside_units. vm_compute. intros [[H _] _]. apply H. reflexivity.
Qed.

(** C10, amended: in a canvas at least [units] wide and high, after [move]
    every game object, whatever its size, is in the range given by [units],
    [0 <= x <= canvas.width - units] and [0 <= y <= canvas.height - units];
    and a rectangle wider (higher) than [units] can be moved so that it
    reaches over the right (lower) edge of the canvas. *)
Theorem move_clamps_by_units (c : Canvas) (d : Vector) (r : Rectangle) :
  units <= canvas_width c -> units <= canvas_height c ->
  inside_units c (GameObject_move c d (super r)) /\
  (units < width r ->
   exists d', canvas_width c <
              x (pos (super (Rectangle_move c d' r))) + width r) /\
  (units < height r ->
   exists d', canvas_height c <
              y (pos (super (Rectangle_move c d' r))) + height r).
Proof.
  intros Hcw Hch. split; [now apply GameObject_move_inside_units |].
  assert (Hu : units = 20) by reflexivity.
  split; intros Hr.
  - exists (mkVector (canvas_width c - x (pos (super r))) 0).
    unfold Rectangle_move, set_super. cbn [super].
    rewrite GameObject_move_x.
    set (q := {| x := _; y := _ |}).
    destruct (clamp_x_cases c q) as [[L _] | [(_ & _ & E) | [R _]]];
      simpl in *; lia.
  - exists (mkVector 0 (canvas_height c - y (pos (super r)))).
    unfold Rectangle_move, set_super. cbn [super].
    rewrite GameObject_move_y.
    set (q := {| x := _; y := _ |}).
    destruct (clamp_y_cases c q) as [[L _] | [(_ & _ & E) | [R _]]];
      simpl in *; lia.
Qed.

Lemma move_clamps_by_units_witness :
  inside_units canvas_400
    (GameObject_move canvas_400 (mkVector 20 0)
       (super (Rectangle_new (mkVector 0 0) 400 400 backgroundColor
                 backgroundColor))).
Proof.
  refine (proj1 (move_clamps_by_units canvas_400 (mkVector 20 0) _ _ _));
    vm_compute; discriminate.
Defined.

(** ** Left, then right *)


(** An entity lower than [units] can be strictly inside by its own size
    and yet below the line the clamp allows: any move pulls it up, and
    left then right does not bring it back. *)
Lemma short_entity_does_not_return :
  let r := Rectangle_new (mkVector 100 385) 10 10 "black" "black" in
  strictly_inside_world canvas_400 r /\
  pos (super (left_then_right canvas_400 10 r)) = mkVector 100 380 /\
  pos (super (left_then_right canvas_400 10 r)) <> pos (super r).
Proof.
  split; [unfold strictly_inside_world; simpl; lia |].
  split; [reflexivity | discriminate].
Qed.

(** On binary64 numbers that are not integers the two additions round:
    from [x = 118.54], left then right by [49.9], with no clamp on the
    way ([x] is [68.64...] in between), the entity ends at
    [118.54000000000002]. *)
Lemma fraction_does_not_return :
  let p := mkVector64 0x1.da28f5c28f5c3p+6 120 in
  let m := 0x1.8f33333333333p+5%float in
  GameObject_move64 400 400 (mkVector64 (- m) 0) p =
    mkVector64 0x1.128f5c28f5c2ap+6 120 /\
  left_then_right64 400 400 m p = mkVector64 0x1.da28f5c28f5c4p+6 120 /\
  PrimFloat.ltb (x64 p) (x64 (left_then_right64 400 400 m p)) = true.
Proof. repeat split. Qed.

(** Above [2^53] integers round too: in a canvas [2^60] wide, from
    [x = 2^53 + 2], left then right by 1 ends at [2^53]. *)
Lemma large_integer_does_not_return :
  left_then_right64 0x1p+60 400 1 (mkVector64 9007199254740994 120) =
  mkVector64 9007199254740992 120.
Proof. reflexivity. Qed.

(** Within the bound, the transcription and the integer model agree. *)
Lemma integer_returns64 :
  left_then_right64 400 400 60 (mkVector64 100 120) = mkVector64 100 120.
Proof. reflexivity. Qed.




(** ** The reassigned [player.move] *)

Lemma startup_reassigns_player_move (this : ThisValue) (c : Canvas) :
  player_move_reassigned (startup this c).
Proof. eexists. split; reflexivity. Qed.

(** The arrow function writes nothing, whatever [this] is. *)
Lemma player_move_arrow_frame (v : Vector) (w : World) :
  snd (player_move_arrow v w) = w.
Proof.
  unfold player_move_arrow, bind, get_world.
  destruct (this_top w) as [| [p |]]; simpl; try reflexivity.
  now destruct ((x p >? 0) && (x v <? 0)).
Qed.

(** With [this] undefined, or without [this.pos], it throws. *)
Lemma player_move_arrow_throws (v : Vector) (w : World) :
  this_top w = ThisUndefined \/ this_top w = ThisObject None ->
  exists msg, fst (player_move_arrow v w) = Throw (TypeError msg).
Proof.
  unfold player_move_arrow, bind, get_world.
  intros [E | E]; rewrite E; simpl; eauto.
Qed.

Lemma call_move_player_is_arrow (v : Vector) (w : World) :
  player_move_reassigned w ->
  call_move player v w = player_move_arrow v w.
Proof.
  intros (r & Hr & Ho). unfold call_move, bind, get_world.
  now rewrite Hr, Ho.
Qed.

Lemma call_move_player_frame (v : Vector) (w : World) :
  player_move_reassigned w -> snd (call_move player v w) = w.
Proof.
  intros H. rewrite call_move_player_is_arrow by exact H.
  apply player_move_arrow_frame.
Qed.

(** Every key leaves the module state as it was. *)
Lemma keydown_frame (key : string) (w : World) :
  player_move_reassigned w -> snd (keydown key w) = w.
Proof.
  intros H. unfold keydown.
  repeat (destruct (String.eqb key _);
          [now apply call_move_player_frame |]).
  reflexivity.
Qed.

Lemma dispatch_frame (keys : list string) (w : World) :
  player_move_reassigned w -> dispatch keys w = w.
Proof.
  intros H. unfold dispatch.
  induction keys as [| key keys IH]; simpl; [reflexivity |].
  now rewrite keydown_frame.
Qed.

(** C3: once [player.move] has been reassigned, a call of the player's
    [move] leaves the module state, and with it both coordinates of
    [player.pos], unchanged, for every vector. *)
Theorem reassigned_move_leaves_player (v : Vector) (w : World) :
  player_move_reassigned w ->
  snd (call_move player v w) = w /\
  pos_of player (snd (call_move player v w)) = pos_of player w /\
  (x <$> pos_of player (snd (call_move player v w))) = (x <$> pos_of player w) /\
  (y <$> pos_of player (snd (call_move player v w))) = (y <$> pos_of player w).
Proof.
  intros H. rewrite call_move_player_frame by exact H. auto.
Qed.

Lemma reassigned_move_leaves_player_witness :
  pos_of player
    (snd (call_move player (mkVector (-20) 0) (startup ThisUndefined canvas_400))) =
  Some (mkVector 100 120).
Proof.
  refine (eq_trans
            (proj1 (proj2 (reassigned_move_leaves_player (mkVector (-20) 0)
                             (startup ThisUndefined canvas_400) _))) _).
  - eexists. split; reflexivity.
  - reflexivity.
Defined.

(** ** Keys *)

(** C8: a key that is none of the four arrow keys is ignored: the listener
    returns normally and the module state is the one before. *)
Theorem keydown_other_key_is_noop (key : string) (w : World) :
  key <> ArrowKey_Left -> key <> ArrowKey_Up ->
  key <> ArrowKey_Down -> key <> ArrowKey_Right ->
  keydown key w = (Normal tt, w).
Proof.
  intros HL HU HD HR. unfold keydown.
  destruct (String.eqb_spec key ArrowKey_Left); [contradiction |].
  destruct (String.eqb_spec key ArrowKey_Up); [contradiction |].
  destruct (String.eqb_spec key ArrowKey_Down); [contradiction |].
  destruct (String.eqb_spec key ArrowKey_Right); [contradiction |].
  reflexivity.
Qed.

Lemma keydown_other_key_is_noop_witness :
  keydown "Enter" (startup ThisUndefined canvas_400) =
  (Normal tt, startup ThisUndefined canvas_400).
Proof.
  apply keydown_other_key_is_noop; vm_compute; discriminate.
Defined.

(** ** The spec's examples *)

(** The method of the prototype does what the examples say: one step right
    from [(100, 120)], saturation at [x = 380], and no move left of 0. *)
Lemma move_times_right (n : nat) :
  pos (super (move_times n canvas_400 (Vector_new units 0) (box_at 100 120))) =
  mkVector (Z.min (100 + 20 * Z.of_nat n) 380) 120.
Proof.
  induction n as [| n IH]; [reflexivity |].
  change (move_times (S n) canvas_400 (Vector_new units 0) (box_at 100 120))
    with (Rectangle_move canvas_400 (Vector_new units 0)
            (move_times n canvas_400 (Vector_new units 0) (box_at 100 120))).
  set (r := move_times n _ _ _) in *.
  unfold Rectangle_move, set_super. cbn [super].
  pose proof (GameObject_move_x canvas_400 (Vector_new units 0) (super r)) as Hx.
  pose proof (GameObject_move_y canvas_400 (Vector_new units 0) (super r)) as Hy.
  rewrite IH in Hx, Hy. cbn [x y Vector_new] in Hx, Hy.
  destruct (pos (GameObject_move _ _ _)) as [qx qy]. cbn [x y] in Hx, Hy.
  subst qx qy. f_equal.
  match goal with |- x (clamp_x ?c ?q) = _ =>
    destruct (clamp_x_cases c q) as [[L E] | [(L1 & L2 & E) | [L E]]]
  end; rewrite E; cbn [x y canvas_400 canvas_width] in *;
    unfold units in *; lia.
Qed.

Lemma prototype_move_examples :
  pos (super (Rectangle_move canvas_400 (Vector_new units 0) (box_at 100 120))) =
    mkVector 120 120 /\
  (forall n, (14 <= n)%nat ->
     pos (super (move_times n canvas_400 (Vector_new units 0) (box_at 100 120))) =
       mkVector 380 120) /\
  pos (super (Rectangle_move canvas_400 (Vector_new (- units) 0) (box_at 0 0))) =
    mkVector 0 0.
Proof.
  split; [reflexivity |]. split; [| reflexivity].
  intros n Hn. rewrite move_times_right. f_equal. lia.
Qed.

(** C2, on the code: in a 400 x 400 canvas the player starts at
    [(100, 120)] with size 20 x 20, and the Right key leaves it there, once
    and any number of times: the listener calls the reassigned
    [player.move], not the method of the prototype. *)
Theorem right_key_leaves_player_in_place (this : ThisValue) :
  let w := startup this canvas_400 in
  (exists r, gameObjects w !! player = Some r /\
             width r = 20 /\ height r = 20 /\
             pos (super r) = mkVector 100 120) /\
  pos_of player (snd (keydown ArrowKey_Right w)) = Some (mkVector 100 120) /\
  pos_of player (snd (keydown ArrowKey_Right w)) <> Some (mkVector 120 120) /\
  (forall n, pos_of player (dispatch (repeat ArrowKey_Right n) w) =
             Some (mkVector 100 120)).
Proof.
  intros w.
  pose proof (startup_reassigns_player_move this canvas_400) as H.
  fold w in H.
  split; [eexists; repeat split; reflexivity |].
  rewrite keydown_frame by exact H.
  split; [reflexivity |]. split; [discriminate |].
  intros n. now rewrite dispatch_frame.
Qed.

(** When the file is loaded as a module, or as a script, the Right key ends
    in a [TypeError]. *)
Lemma right_key_throws :
  (exists msg, fst (keydown ArrowKey_Right (startup ThisUndefined canvas_400)) =
               Throw (TypeError msg)) /\
  (exists msg, fst (keydown ArrowKey_Right (startup (ThisObject None) canvas_400)) =
               Throw (TypeError msg)).
Proof. split; eexists; reflexivity. Qed.

(** The Left key at [(0, 0)]: the player stays, as every key leaves it. *)
Lemma left_key_leaves_player (w : World) :
  player_move_reassigned w ->
  pos_of player (snd (keydown ArrowKey_Left w)) = pos_of player w.
Proof. intros H. now rewrite keydown_frame. Qed.

(** ** Startup *)

(** C9, as stated, fails: a canvas of width and height 0 is accepted, and
    the obstacle at [(160, 120)] is moved to the negative ceiling
    [(-20, -20)] by a move with the zero vector. *)
Lemma zero_canvas_is_accepted :
  let c := mkCanvas 0 0 in
  init ThisUndefined (Some c) = Normal (startup ThisUndefined c) /\
  (forall e, init ThisUndefined (Some c) <> Throw e) /\
  pos_of 2%nat (startup ThisUndefined c) = Some (mkVector 160 120) /\
  pos_of 2%nat (snd (call_move 2%nat (mkVector 0 0) (startup ThisUndefined c))) =
    Some (mkVector (-20) (-20)).
Proof.
  split; [reflexivity |]. split; [discriminate |]. split; reflexivity.
Qed.

Lemma GameObject_move_negative_ceiling_y (c : Canvas) (d : Vector) (o : GameObject) :
  canvas_height c < units -> 0 <= y (pos o) + y d ->
  y (pos (GameObject_move c d o)) = canvas_height c - units.
Proof.
  intros Hh Hy. rewrite GameObject_move_y.
  set (q := {| x := _; y := _ |}).
  destruct (clamp_y_cases c q) as [[L _] | [(_ & _ & E) | [R _]]];
    simpl in *; [lia | exact E | lia].
Qed.

(** The startup rejects no canvas: with an element in the page it ends
    normally, whatever the size. *)
Lemma init_accepts_every_canvas (this : ThisValue) (c : Canvas) :
  init this (Some c) = Normal (startup this c) /\
  canvas (startup this c) = c /\
  length (gameObjects (startup this c)) = 6%nat.
Proof. repeat split. Qed.

(** The same on the other axis, for a canvas of non-positive height. *)
Lemma nonpositive_height_is_accepted
    (this : ThisValue) (c : Canvas) (d : Vector) (o : GameObject) :
  canvas_height c <= 0 -> 0 <= y (pos o) + y d ->
  init this (Some c) = Normal (startup this c) /\
  y (pos (GameObject_move c d o)) = canvas_height c - units.
Proof.
  intros Hc Hp. assert (Hu : units = 20) by reflexivity.
  split; [reflexivity |]. apply GameObject_move_negative_ceiling_y; lia.
Qed.

(** C9, amended: a canvas of non-positive width is not rejected: the
    startup ends normally and keeps the canvas as it is, and afterwards
    every [move] whose sum [x + d.x] is not below 0 puts [x] on the
    negative ceiling [canvas.width - units]. *)
Theorem misconfigured_canvas_is_accepted
    (this : ThisValue) (c : Canvas) (d : Vector) (o : GameObject) :
  canvas_width c <= 0 -> 0 <= x (pos o) + x d ->
  init this (Some c) = Normal (startup this c) /\
  canvas (startup this c) = c /\
  x (pos (GameObject_move c d o)) = canvas_width c - units /\
  x (pos (GameObject_move c d o)) < 0.
Proof.
  intros Hc Hp. assert (Hu : units = 20) by reflexivity.
  split; [reflexivity |]. split; [reflexivity |].
  rewrite GameObject_move_negative_ceiling; lia.
Qed.

Lemma misconfigured_canvas_is_accepted_witness :
  init ThisUndefined (Some (mkCanvas 0 150)) =
    Normal (startup ThisUndefined (mkCanvas 0 150)) /\
  x (pos (GameObject_move (mkCanvas 0 150) (mkVector 0 0)
            (super (box_at 100 120)))) = -20.
Proof.
  pose proof (misconfigured_canvas_is_accepted ThisUndefined (mkCanvas 0 150)
                (mkVector 0 0) (super (box_at 100 120))) as H.
  destruct H as (H1 & _ & H3 & _); [simpl; lia | simpl; lia |].
  split; [exact H1 | exact H3].
Defined.

(** * Further properties of the code *)

(** ** Sums of vectors *)

Lemma fold_add_step_x (vs : list Vector) (a : Vector) :
  x (fold_left add_step vs a) = fold_left Z.add (map x vs) (x a).
Proof. revert a. induction vs as [| v vs IH]; intros a; simpl; [| rewrite IH]; reflexivity. Qed.

Lemma fold_add_step_y (vs : list Vector) (a : Vector) :
  y (fold_left add_step vs a) = fold_left Z.add (map y vs) (y a).
Proof. revert a. induction vs as [| v vs IH]; intros a; simpl; [| rewrite IH]; reflexivity. Qed.

(** X1: the components of [Vector.add(...vectors)] are the sums of the
    components of the arguments. *)
Theorem Vector_add_is_componentwise_sum (vs : list Vector) :
  x (Vector_add vs) = sumZ (map x vs) /\ y (Vector_add vs) = sumZ (map y vs).
Proof.
  unfold Vector_add, sumZ. now rewrite fold_add_step_x, fold_add_step_y.
Qed.

(** X4: [plus(...vectors)] adds the arguments to the receiver one after
    the other, from left to right, starting from the receiver's own value;
    with no argument the receiver keeps its value. *)
Theorem Vector_plus_adds_left_to_right (vs : list Vector) (p : Vector) :
  x (Vector_plus vs p) = fold_left Z.add (map x vs) (x p) /\
  y (Vector_plus vs p) = fold_left Z.add (map y vs) (y p) /\
  Vector_plus [] p = p.
Proof.
  rewrite !Vector_plus_fold, fold_add_step_x, fold_add_step_y. auto.
Qed.

(** The order of the arguments matters once a sum leaves the exact range:
    on binary64 numbers [add(2^53, 1, 1)] is [2^53] and [add(1, 1, 2^53)]
    is [2^53 + 2]. *)
Lemma add_order_matters64 :
  x64 (Vector_add64 [mkVector64 9007199254740992 0; mkVector64 1 0;
                     mkVector64 1 0]) = 9007199254740992%float /\
  x64 (Vector_add64 [mkVector64 1 0; mkVector64 1 0;
                     mkVector64 9007199254740992 0]) = 9007199254740994%float.
Proof. split; reflexivity. Qed.

(** ** Positions *)

(** X6: [moveX(k)] adds [k] to [x], leaves [y], and prints the old and the
    new [x]; [moveY(k)] adds [k] to [y] and leaves [x]. *)
Theorem moveX_moveY_axes (k : Z) (p : Position) :
  fst (Position_moveX k p) = {| x := x p + k; y := y p |} /\
  snd (Position_moveX k p) = [x p; x p + k] /\
  Position_moveY k p = {| x := x p; y := y p + k |}.
Proof.
  unfold Position_moveX, Position_moveY. rewrite !Position_move_eq. simpl.
  repeat split; f_equal; lia.
Qed.

(** X7: on integer coordinates and magnitudes whose sums stay within
    [2^53], the helpers of opposite directions undo each other, in both
    orders. *)
Theorem opposite_helpers_cancel (m : Z) (p : Position) :
  Z.abs (x p) + Z.abs m <= exact_bound ->
  Z.abs (y p) + Z.abs m <= exact_bound ->
  fst (Position_moveLeft m (fst (Position_moveRight m p))) = p /\
  fst (Position_moveRight m (fst (Position_moveLeft m p))) = p /\
  Position_moveUp m (Position_moveDown m p) = p /\
  Position_moveDown m (Position_moveUp m p) = p.
Proof.
  intros _ _.
  unfold Position_moveLeft, Position_moveRight, Position_moveUp,
    Position_moveDown, Position_moveX, Position_moveY. simpl.
  rewrite !Position_move_eq. destruct p as [px py]. simpl.
  repeat split; f_equal; lia.
Qed.

Lemma opposite_helpers_cancel_witness :
  fst (Position_moveLeft 700 (fst (Position_moveRight 700 (mkVector 100 120)))) =
  mkVector 100 120.
Proof.
  refine (proj1 (opposite_helpers_cancel 700 (mkVector 100 120) _ _));
    vm_compute; discriminate.
Defined.

(** ** The clamp in closed form *)

Lemma move_x_closed (c : Canvas) (d : Vector) (o : GameObject) :
  units <= canvas_width c ->
  x (pos (GameObject_move c d o)) =
  Z.max 0 (Z.min (canvas_width c - units) (x (pos o) + x d)).
Proof.
  intros Hw. rewrite GameObject_move_x.
  set (q := {| x := _; y := _ |}).
  destruct (clamp_x_cases c q) as [[L E] | [(L1 & L2 & E) | [L E]]];
    rewrite E; simpl in *; lia.
Qed.

Lemma move_y_closed (c : Canvas) (d : Vector) (o : GameObject) :
  units <= canvas_height c ->
  y (pos (GameObject_move c d o)) =
  Z.max 0 (Z.min (canvas_height c - units) (y (pos o) + y d)).
Proof.
  intros Hh. rewrite GameObject_move_y.
  set (q := {| x := _; y := _ |}).
  destruct (clamp_y_cases c q) as [[L E] | [(L1 & L2 & E) | [L E]]];
    rewrite E; simpl in *; lia.
Qed.

Lemma Vector_eq (p q : Vector) : x p = x q -> y p = y q -> p = q.
Proof. destruct p, q. simpl. congruence. Qed.

(** X8: in a canvas at least [units] wide and high, [move] puts each
    coordinate at the sum cut to the range from 0 to the canvas size less
    [units]; the two axes do not influence each other. *)
Theorem move_is_max_min (c : Canvas) (d : Vector) (o : GameObject) :
  units <= canvas_width c -> units <= canvas_height c ->
  pos (GameObject_move c d o) =
  {| x := Z.max 0 (Z.min (canvas_width c - units) (x (pos o) + x d));
     y := Z.max 0 (Z.min (canvas_height c - units) (y (pos o) + y d)) |}.
Proof.
  intros Hw Hh. apply Vector_eq; simpl.
  - now apply move_x_closed.
  - now apply move_y_closed.
Qed.

Lemma move_is_max_min_witness :
  pos (GameObject_move canvas_400 (mkVector 500 (-7)) (super (box_at 100 120))) =
  mkVector 380 113.
Proof.
  refine (eq_trans (move_is_max_min canvas_400 (mkVector 500 (-7))
                      (super (box_at 100 120)) _ _) _).
  - vm_compute; discriminate.
  - vm_compute; discriminate.
  - reflexivity.
Defined.

(** X9: [move] with the zero vector changes nothing on an object that is
    in the clamp range, so after any [move] a further [move((0, 0))] is
    without effect. *)
Theorem move_zero_after_move (c : Canvas) (d : Vector) (o : GameObject) :
  units <= canvas_width c -> units <= canvas_height c ->
  GameObject_move c (mkVector 0 0) (GameObject_move c d o) =
  GameObject_move c d o.
Proof.
  intros Hw Hh.
  pose proof (GameObject_move_inside_units c d o Hw Hh) as [Hx Hy].
  generalize dependent (GameObject_move c d o). intros o' Hx Hy.
  assert (E : pos (GameObject_move c (mkVector 0 0) o') = pos o').
  { rewrite GameObject_move_unclamped; cbn [x y]; [| lia | lia].
    apply Vector_eq; cbn [x y]; lia. }
  unfold GameObject_move, set_pos in *. cbn [pos] in E. rewrite E.
  now destruct o'.
Qed.

Lemma move_zero_after_move_witness :
  GameObject_move canvas_400 (mkVector 0 0)
    (GameObject_move canvas_400 (mkVector 900 900) (super (box_at 100 120))) =
  GameObject_move canvas_400 (mkVector 900 900) (super (box_at 100 120)).
Proof.
  apply move_zero_after_move; vm_compute; discriminate.
Defined.

(** X10: from a position in the clamp range, [move] goes in the direction
    asked for and never further than asked: each coordinate ends between
    its old value and the sum. *)
Theorem move_never_overshoots (c : Canvas) (d : Vector) (o : GameObject) :
  inside_units c o ->
  Z.min (x (pos o)) (x (pos o) + x d) <= x (pos (GameObject_move c d o))
    <= Z.max (x (pos o)) (x (pos o) + x d) /\
  Z.min (y (pos o)) (y (pos o) + y d) <= y (pos (GameObject_move c d o))
    <= Z.max (y (pos o)) (y (pos o) + y d).
Proof.
  intros [Hx Hy].
  rewrite move_x_closed, move_y_closed by lia. lia.
Qed.

Lemma move_never_overshoots_witness :
  Z.min 100 (100 + 500) <=
    x (pos (GameObject_move canvas_400 (mkVector 500 0) (super (box_at 100 120))))
    <= Z.max 100 (100 + 500).
Proof.
  refine (proj1 (move_never_overshoots canvas_400 (mkVector 500 0)
                   (super (box_at 100 120)) _)).
  unfold inside_units. simpl. unfold units. lia.
Defined.

Lemma move_times_succ (n : nat) (c : Canvas) (d : Vector) (r : Rectangle) :
  move_times (S n) c d r = Rectangle_move c d (move_times n c d r).
Proof. reflexivity. Qed.

(** X12: on integers, in a canvas and with a vector small enough for
    every sum to stay within [2^53], [n] moves with the same vector from a
    position in the clamp range end at the position [n] times the vector
    away, cut to the range: the object walks to the edge and stays
    there. *)
Theorem repeated_move_saturates
    (n : nat) (c : Canvas) (d : Vector) (r : Rectangle) :
  inside_units c (super r) ->
  2 * canvas_width c <= exact_bound -> 2 * canvas_height c <= exact_bound ->
  2 * Z.abs (x d) <= exact_bound -> 2 * Z.abs (y d) <= exact_bound ->
  pos (super (move_times n c d r)) =
  {| x := Z.max 0 (Z.min (canvas_width c - units)
                     (x (pos (super r)) + Z.of_nat n * x d));
     y := Z.max 0 (Z.min (canvas_height c - units)
                     (y (pos (super r)) + Z.of_nat n * y d)) |}.
Proof.
  intros [Hx Hy] _ _ _ _.
  assert (Hw : units <= canvas_width c) by lia.
  assert (Hh : units <= canvas_height c) by lia.
  induction n as [| n IH].
  - apply Vector_eq; cbn [x y move_times Nat.iter nat_rect]; lia.
  - rewrite move_times_succ. unfold Rectangle_move, set_super. cbn [super].
    apply Vector_eq; cbn [x y].
    + rewrite move_x_closed, IH by assumption. cbn [x y].
      rewrite Nat2Z.inj_succ, Z.mul_succ_l.
      assert (0 <= x d -> 0 <= Z.of_nat n * x d) by nia.
      assert (x d <= 0 -> Z.of_nat n * x d <= 0) by nia.
      lia.
    + rewrite move_y_closed, IH by assumption. cbn [x y].
      rewrite Nat2Z.inj_succ, Z.mul_succ_l.
      assert (0 <= y d -> 0 <= Z.of_nat n * y d) by nia.
      assert (y d <= 0 -> Z.of_nat n * y d <= 0) by nia.
      lia.
Qed.

Lemma repeated_move_saturates_witness :
  pos (super (move_times 30 canvas_400 (mkVector 20 (-20)) (box_at 100 120))) =
  mkVector 380 0.
Proof.
  refine (eq_trans (repeated_move_saturates 30 canvas_400 (mkVector 20 (-20))
                      (box_at 100 120) _ _ _ _ _) _).
  - unfold inside_units. simpl. unfold units. lia.
  - vm_compute; discriminate.
  - vm_compute; discriminate.
  - vm_compute; discriminate.
  - vm_compute; discriminate.
  - reflexivity.
Defined.

(** With a step that is not an integer the sums round: ten moves by [0.1]
    from [x = 0] end just below 1. *)
Lemma ten_tenths64 :
  Nat.iter 10 (GameObject_move64 400 400 (mkVector64 0x1.999999999999ap-4 0))
    (mkVector64 0 120) = mkVector64 0x1.fffffffffffffp-1 120.
Proof. reflexivity. Qed.

(** ** Startup and runs *)

Lemma startup_is_world_at (this : ThisValue) (c : Canvas) :
  startup this c =
  world_at this c (mkVector 0 0) (mkVector (8 * units) (6 * units))
    (mkVector (0 * units) (6 * units)) (mkVector (1 * units) (2 * units))
    (mkVector (5 * units) (5 * units)).
Proof. reflexivity. Qed.

(** X13: the objects of the startup are all inside the world, by their own
    size, exactly when the canvas is at least 180 wide and 140 high. *)
Theorem startup_inside_world_iff (this : ThisValue) (c : Canvas) :
  Forall (inside_world c) (gameObjects (startup this c)) <->
  180 <= canvas_width c /\ 140 <= canvas_height c.
Proof.
  rewrite startup_is_world_at. unfold world_at. cbn [gameObjects].
  rewrite !Forall_cons, Forall_nil. unfold inside_world, units. simpl. lia.
Qed.

(** X14: no sequence of key events changes the module state, and so the
    frame drawn after it is the frame drawn at the start. *)
Theorem keys_never_change_the_frame
    (this : ThisValue) (c : Canvas) (keys : list string) :
  dispatch keys (startup this c) = startup this c /\
  render (dispatch keys (startup this c)) = render (startup this c) /\
  frame_calls (dispatch keys (startup this c)) = frame_calls (startup this c).
Proof.
  rewrite dispatch_frame by apply startup_reassigns_player_move. auto.
Qed.

(** A call of [move] on an object without a [move] of its own. *)
Lemma call_move_inherited (o : nat) (v : Vector) (w : World) (r : Rectangle) :
  gameObjects w !! o = Some r -> own_move (super r) = None ->
  call_move o v w =
  (Normal tt,
   set_gameObjects (<[o := Rectangle_move (canvas w) v r]> (gameObjects w)) w).
Proof.
  intros Hr Ho. unfold call_move, bind, get_world. now rewrite Hr, Ho.
Qed.

Lemma startup_other_objects (this : ThisValue) (c : Canvas) (o : nat) :
  o <> player -> (o < 6)%nat ->
  exists r, gameObjects (startup this c) !! o = Some r /\
            own_move (super r) = None.
Proof.
  intros Hp Ho.
  assert (Hcases : (o = 0 \/ o = 2 \/ o = 3 \/ o = 4 \/ o = 5)%nat)
    by (unfold player in Hp; lia).
  destruct Hcases as [-> | [-> | [-> | [-> | ->]]]];
    eexists; split; reflexivity.
Qed.

(** X15: the reassignment of [move] is on the player object alone: on each
    other object of the startup, [move] still is the method of the
    prototype.  The call returns normally, the object ends at the clamped
    position, and no other object changes. *)
Theorem other_objects_keep_inherited_move
    (this : ThisValue) (c : Canvas) (o : nat) (v : Vector) :
  o <> player -> (o < 6)%nat ->
  let w := startup this c in
  let w' := snd (call_move o v w) in
  fst (call_move o v w) = Normal tt /\
  pos_of o w' =
    (fun r => pos (GameObject_move c v (super r))) <$> gameObjects w !! o /\
  (forall o', o' <> o -> gameObjects w' !! o' = gameObjects w !! o') /\
  canvas w' = c.
Proof.
  intros Hp Ho w w'.
  destruct (startup_other_objects this c o Hp Ho) as (r & Hr & Hm).
  fold w in Hr. subst w'.
  rewrite (call_move_inherited o v w r Hr Hm). cbn [fst snd].
  split; [reflexivity |]. split; [| split; [| reflexivity]].
  - unfold pos_of, set_gameObjects. cbn [gameObjects].
    rewrite list_lookup_insert_eq, Hr; [reflexivity |].
    apply lookup_lt_Some in Hr. exact Hr.
  - intros o' Hne. unfold set_gameObjects. cbn [gameObjects].
    apply list_lookup_insert_ne. congruence.
Qed.

Lemma other_objects_keep_inherited_move_witness :
  pos_of 2%nat
    (snd (call_move 2%nat (mkVector 500 0) (startup ThisUndefined canvas_400))) =
  Some (mkVector 380 120).
Proof.
  refine (eq_trans
            (proj1 (proj2 (other_objects_keep_inherited_move ThisUndefined
                             canvas_400 2%nat (mkVector 500 0) _ _))) _).
  - unfold player. lia.
  - lia.
  - reflexivity.
Defined.

(** ** What every run keeps *)

Section Runs.
Variable this : ThisValue.
Variable c : Canvas.
Variable P : Position -> Prop.
Hypothesis P_move : forall d o, P (pos (GameObject_move c d o)).

Lemma world_at_reassigned (p0 p2 p3 p4 p5 : Position) :
  player_move_reassigned (world_at this c p0 p2 p3 p4 p5).
Proof. eexists. split; reflexivity. Qed.

Lemma call_move_keeps_shape (o : nat) (v : Vector) (w : World) :
  shaped P this c w -> shaped P this c (snd (call_move o v w)).
Proof.
  intros (p0 & p2 & p3 & p4 & p5 & -> & H0 & H2 & H3 & H4 & H5).
  destruct o as [| [| [| [| [| [| o]]]]]].
  - exists (pos (GameObject_move c v
                   (super (Rectangle_new p0 (canvas_width c) (canvas_height c)
                             backgroundColor backgroundColor)))),
      p2, p3, p4, p5.
    split; [reflexivity | auto using P_move].
  - pose proof (call_move_player_frame v _
                  (world_at_reassigned p0 p2 p3 p4 p5)) as E.
    unfold player in E. rewrite E.
    exists p0, p2, p3, p4, p5. auto 10.
  - exists p0,
      (pos (GameObject_move c v (super (Rectangle_new p2 units units "black" "black")))),
      p3, p4, p5.
    split; [reflexivity | auto 10 using P_move].
  - exists p0, p2,
      (pos (GameObject_move c v (super (Rectangle_new p3 units units "black" "black")))),
      p4, p5.
    split; [reflexivity | auto 10 using P_move].
  - exists p0, p2, p3,
      (pos (GameObject_move c v (super (Rectangle_new p4 units units "black" "black")))),
      p5.
    split; [reflexivity | auto 10 using P_move].
  - exists p0, p2, p3, p4,
      (pos (GameObject_move c v (super (Rectangle_new p5 units units "black" "black")))).
    split; [reflexivity | auto 10 using P_move].
  - exists p0, p2, p3, p4, p5. split; [reflexivity | auto 10].
Qed.

Lemma act_keeps_shape (a : Action) (w : World) :
  shaped P this c w -> shaped P this c (act w a).
Proof.
  intros H. destruct a as [key | o v]; [| now apply call_move_keeps_shape].
  destruct H as (p0 & p2 & p3 & p4 & p5 & -> & H).
  cbn [act]. rewrite keydown_frame by apply world_at_reassigned.
  exists p0, p2, p3, p4, p5. auto.
Qed.

Lemma run_keeps_shape (actions : list Action) (w : World) :
  shaped P this c w -> shaped P this c (run actions w).
Proof.
  unfold run. revert w.
  induction actions as [| a actions IH]; intros w H; [exact H |].
  apply IH, act_keeps_shape, H.
Qed.
End Runs.

Lemma startup_shaped (P : Position -> Prop) (this : ThisValue) (c : Canvas) :
  P (mkVector 0 0) -> P (mkVector 160 120) -> P (mkVector 0 120) ->
  P (mkVector 20 40) -> P (mkVector 100 100) ->
  shaped P this c (startup this c).
Proof.
  intros H0 H2 H3 H4 H5. rewrite startup_is_world_at.
  eexists _, _, _, _, _. split; [reflexivity |]. auto 10.
Qed.

(** X16: in a canvas at least 180 wide and 140 high, whatever sequence of
    key events and calls of [move] on the game objects follows the
    startup, the array keeps its six objects, every object is in the range
    [move] clamps to, and the player is still at its start position with
    its reassigned [move]. *)
Theorem run_keeps_objects_in_range
    (this : ThisValue) (c : Canvas) (actions : list Action) :
  9 * units <= canvas_width c -> 7 * units <= canvas_height c ->
  let w := run actions (startup this c) in
  canvas w = c /\
  length (gameObjects w) = 6%nat /\
  all_inside_units w /\
  pos_of player w = Some (mkVector 100 120) /\
  player_move_reassigned w.
Proof.
  intros Hw Hh w. assert (Hu : units = 20) by reflexivity.
  set (P := fun p : Position =>
              0 <= x p <= canvas_width c - units /\
              0 <= y p <= canvas_height c - units).
  assert (Hs : shaped P this c w).
  { apply run_keeps_shape.
    - intros d o. apply (GameObject_move_inside_units c d o); lia.
    - apply startup_shaped; unfold P; simpl; lia. }
  destruct Hs as (p0 & p2 & p3 & p4 & p5 & -> & H0 & H2 & H3 & H4 & H5).
  split; [reflexivity |]. split; [reflexivity |].
  split; [| split; [reflexivity | apply world_at_reassigned]].
  unfold all_inside_units, world_at. cbn [gameObjects canvas].
  repeat apply Forall_cons_2; try apply Forall_nil_2;
    unfold inside_units; cbn [Rectangle_new super pos]; try assumption.
  simpl. lia.
Qed.

Lemma run_keeps_objects_in_range_witness :
  all_inside_units
    (run [Key "ArrowRight"; Move 2%nat (mkVector 900 (-900)); Key "x";
          Move 0%nat (mkVector (-3) 7)]
       (startup ThisUndefined canvas_400)).
Proof.
  refine (proj1 (proj2 (proj2 (run_keeps_objects_in_range ThisUndefined
                                 canvas_400 _ _ _)))).
  - vm_compute; discriminate.
  - vm_compute; discriminate.
Defined.

(** X17: after any such sequence a frame is: the canvas cleared, the
    background in its colour and with the size of the canvas, the blue
    player, 20 by 20, at [(100, 120)], and the four black obstacles, 20 by
    20; the background and the obstacles are drawn where they are now, in
    the order of the array. *)
Theorem frame_after_run
    (this : ThisValue) (c : Canvas) (actions : list Action) :
  let w := run actions (startup this c) in
  exists p0 p2 p3 p4 p5,
    pos_of 0%nat w = Some p0 /\ pos_of 2%nat w = Some p2 /\
    pos_of 3%nat w = Some p3 /\ pos_of 4%nat w = Some p4 /\
    pos_of 5%nat w = Some p5 /\
    render w =
    [ ClearRect 0 0 (canvas_width c) (canvas_height c);
      DrawRect "#7777ff" "#7777ff" (x p0) (y p0) (canvas_width c) (canvas_height c);
      DrawRect "blue" "#7777ff" 100 120 20 20;
      DrawRect "black" "black" (x p2) (y p2) 20 20;
      DrawRect "black" "black" (x p3) (y p3) 20 20;
      DrawRect "black" "black" (x p4) (y p4) 20 20;
      DrawRect "black" "black" (x p5) (y p5) 20 20 ].
Proof.
  intros w.
  assert (Hs : shaped (fun _ => True) this c w).
  { apply run_keeps_shape; [auto |]. now apply startup_shaped. }
  destruct Hs as (p0 & p2 & p3 & p4 & p5 & -> & _).
  exists p0, p2, p3, p4, p5. repeat split.
Qed.

(** X18: every such frame makes 43 calls on the context, the first of them
    [clearRect] over the whole canvas, and none of them assigns
    [lineWidth]. *)
Theorem frame_calls_after_run
    (this : ThisValue) (c : Canvas) (actions : list Action) :
  let w := run actions (startup this c) in
  length (frame_calls w) = 43%nat /\
  head (frame_calls w) = Some (CallClearRect 0 0 (canvas_width c) (canvas_height c)) /\
  forall lw, ~ In (SetLineWidth lw) (frame_calls w).
Proof.
  intros w.
  assert (Hs : shaped (fun _ => True) this c w).
  { apply run_keeps_shape; [auto |]. now apply startup_shaped. }
  destruct Hs as (p0 & p2 & p3 & p4 & p5 & -> & _).
  split; [reflexivity |]. split; [reflexivity |].
  intros lw. cbn. intuition discriminate.
Qed.

(** ** drawLine *)

(** X19: [drawLine] assigns [lineWidth] exactly when a width above 0 is
    passed, and then that width; without the argument, or with a width of
    0 or less, the line is drawn in the width the context already has. *)
Theorem drawLine_sets_lineWidth_iff
    (stroke : string) (start end_ : Vector) (width : option Z) (lw : Z) :
  In (SetLineWidth lw) (drawLine stroke start end_ width) <->
  width = Some lw /\ 0 < lw.
Proof.
  unfold drawLine.
  destruct width as [w |].
  - rewrite Z.gtb_ltb. destruct (Z.ltb_spec 0 w) as [Hpos | Hneg]; cbn.
    + split.
      * intros [H | [H | H]].
        -- discriminate H.
        -- injection H as ->. auto.
        -- intuition discriminate.
      * intros [H _]. injection H as ->. auto.
    + split.
      * intuition discriminate.
      * intros [H Hlw]. injection H as ->. lia.
  - cbn. split; [intuition discriminate | intros [H _]; discriminate H].
Qed.

(** ** A canvas smaller than [units] *)

(** X20: in a canvas narrower than [units] the clamp has no room: after
    [move], [x] is 0 when the sum is below 0 and the negative value
    [canvas.width - units] otherwise, wherever the object was. *)
Theorem move_in_narrow_canvas (c : Canvas) (d : Vector) (o : GameObject) :
  canvas_width c < units ->
  x (pos (GameObject_move c d o)) =
  if x (pos o) + x d <? 0 then 0 else canvas_width c - units.
Proof.
  intros Hw. rewrite GameObject_move_x.
  set (q := {| x := _; y := _ |}).
  destruct (Z.ltb_spec (x (pos o) + x d) 0) as [Hneg | Hpos];
    destruct (clamp_x_cases c q) as [[L E] | [(L1 & L2 & E) | [L E]]];
    simpl in *; try lia; try (rewrite E; simpl; lia).
Qed.

Lemma move_in_narrow_canvas_witness :
  x (pos (GameObject_move (mkCanvas 10 10) (mkVector 3 0) (super (box_at 0 0)))) =
  -10.
Proof.
  refine (eq_trans (move_in_narrow_canvas (mkCanvas 10 10) (mkVector 3 0)
                      (super (box_at 0 0)) _) _).
  - simpl. unfold units. lia.
  - reflexivity.
Defined.
